(** * Scoped primitive-array accessors (libnativehelper)

    A shallow embedding of [scoped_primitive_array.h]: the trait table
    [ScopedPrimitiveArrayTraits], the read-only accessor [ScopedArrayRO]
    (nullable or not) and the read-write accessor [ScopedArrayRW], together
    with a model of the JNI function table that records every foreign call.

    Conventions.
    - Pointers and array handles are addresses in [Z]; [nullptr] is [0].
    - Integer types ([size_t], [ssize_t], [jsize]) are [Z] with the
      conversion to the type written out at every assignment.
    - Native memory is a finite map from addresses to element bit patterns;
      an address outside the map is not backed by storage, so an access
      there has no defined result ([None]).
    - Foreign calls run in the monad [M Env]: they thread the environment
      and may not return ([Aborted]). *)

From stdpp Require Import gmap list strings.
Local Open Scope Z_scope.

(** ** Native integer types *)

(** The two Android data models: [size_t], [ssize_t] and pointers are 32 bits
    wide under [ILP32] and 64 bits under [LP64]; [jsize] is always 32 bits. *)
Inductive ABI := ILP32 | LP64.

Definition size_bits (abi : ABI) : Z :=
  match abi with ILP32 => 32 | LP64 => 64 end.

Definition wrap_unsigned (bits z : Z) : Z := z mod 2 ^ bits.

Definition wrap_signed (bits z : Z) : Z :=
  (z + 2 ^ (bits - 1)) mod 2 ^ bits - 2 ^ (bits - 1).

Definition to_size_t (abi : ABI) (z : Z) : Z := wrap_unsigned (size_bits abi) z.
Definition to_ssize_t (abi : ABI) (z : Z) : Z := wrap_signed (size_bits abi) z.
Definition to_jsize (z : Z) : Z := wrap_signed 32 z.

Definition SIZE_MAX (abi : ABI) : Z := 2 ^ size_bits abi - 1.
Definition JSIZE_MAX : Z := 2 ^ 31 - 1.

(** ** Element kinds *)

(** The eight instantiations of [ARRAY_TRAITS]. *)
Inductive JType :=
  | jboolean | jbyte | jchar | jdouble | jfloat | jint | jlong | jshort.

(** Modelled from the spec: [jni.h], which declares the element types, is not
    among the sources; the sizes are those of the element kinds the spec
    lists (boolean, byte, 16-bit char, double, float, int32, int64, int16). *)
Definition sizeof (T : JType) : Z :=
  match T with
  | jboolean | jbyte => 1
  | jchar | jshort => 2
  | jfloat | jint => 4
  | jdouble | jlong => 8
  end.

Definition nullptr : Z := 0.

(** The message both constructors hand to [fatalError]. *)
Definition null_message : string := "javaArray is null".

(** Modelled from the spec: the release mode that frees the buffer without
    copying back, as [jni.h] (not among the sources) numbers it; mode [0]
    copies back and frees. *)
Definition JNI_ABORT : Z := 2.

(** [p + n] on a [JType*].  Addresses are not wrapped: C++ gives no meaning
    to pointer arithmetic that leaves the object. *)
Definition ptr_add (T : JType) (p n : Z) : Z := p + n * sizeof T.

(** ** Native memory *)

Definition load (m : gmap Z Z) (ref : Z) : option Z := m !! ref.

Definition store (m : gmap Z Z) (ref v : Z) : option (gmap Z Z) :=
  match m !! ref with
  | Some _ => Some (<[ref := v]> m)
  | None => None
  end.

(** [n] consecutive elements of kind [T] starting at [p] are backed by
    storage. *)
Definition region_allocated (T : JType) (m : gmap Z Z) (p n : Z) : Prop :=
  ∀ i, 0 ≤ i < n → is_Some (m !! ptr_add T p i).

(** The same, as a check that runs on a concrete memory. *)
Definition region_allocatedb (T : JType) (m : gmap Z Z) (p n : Z) : bool :=
  forallb (λ i, bool_decide (is_Some (m !! ptr_add T p i))) (seqZ 0 n).

(** The elements a callee sees when it reads [n] elements at [p]. *)
Definition read_buffer (T : JType) (m : gmap Z Z) (p n : Z) : list (option Z) :=
  (λ i, m !! ptr_add T p i) <$> seqZ 0 n.

(** ** Foreign calls that may not return *)

Inductive Outcome (Env A : Type) :=
  | Returned (env : Env) (a : A)
  | Aborted (env : Env).
Arguments Returned {Env A} env a.
Arguments Aborted {Env A} env.

Definition M (Env A : Type) : Type := Env → Outcome Env A.

#[global] Instance M_ret {Env} : MRet (M Env) := λ A a env, Returned env a.

#[global] Instance M_bind {Env} : MBind (M Env) := λ A B k c env,
  match c env with
  | Returned env' a => k a env'
  | Aborted env' => Aborted env'
  end.

Definition final_env {Env A} (o : Outcome Env A) : Env :=
  match o with Returned env _ => env | Aborted env => env end.

(** ** The trait table *)

(** [ScopedPrimitiveArrayTraits<JType>]: the five static functions an
    accessor calls.  Arguments are, in the order of the source, the array
    handle, [start] and [len] (as [size_t]), the destination or buffer
    pointer, and the release mode. *)
Class ScopedPrimitiveArrayTraits (abi : ABI) (T : JType) (Env : Type) := {
  getArrayRegion : Z → Z → Z → Z → M Env unit;
  getArrayElements : Z → M Env Z;
  releaseArrayElements : Z → Z → Z → M Env unit;
  getArrayLength : Z → M Env Z;
  fatalError : string → M Env unit
}.

(** ** The JNI function table, instrumented *)

(** One entry per call that reaches the runtime.  A release also records the
    elements the runtime finds in the buffer it is handed. *)
Inductive Call :=
  | GetArrayLength (array : Z)
  | GetArrayRegion (T : JType) (array start len buf : Z)
  | GetArrayElements (T : JType) (array : Z)
  | ReleaseArrayElements (T : JType) (array elems mode : Z)
      (seen : list (option Z))
  | FatalError (msg : string).

(** The runtime as the accessors see it: what it answers for each handle
    ([array_length] as a [jsize], [array_elements] as a pointer,
    [array_data] as the element at an index), whether [FatalError] hands
    control back, the native memory, and the calls made so far. *)
Record JNIEnv := {
  array_length : Z → Z;
  array_elements : Z → Z;
  array_data : Z → Z → Z;
  fatal_returns : bool;
  memory : gmap Z Z;
  calls : list Call
}.

Definition record_call (c : Call) (env : JNIEnv) : JNIEnv :=
  {| array_length := array_length env;
     array_elements := array_elements env;
     array_data := array_data env;
     fatal_returns := fatal_returns env;
     memory := memory env;
     calls := calls env ++ [c] |}.

Definition with_memory (m : gmap Z Z) (env : JNIEnv) : JNIEnv :=
  {| array_length := array_length env;
     array_elements := array_elements env;
     array_data := array_data env;
     fatal_returns := fatal_returns env;
     memory := m;
     calls := calls env |}.

(** Region copy: element [start + i] of the array goes to [buf + i], for
    [i < len]; only storage that exists is written. *)
Definition copy_region (T : JType) (data : Z → Z) (start len buf : Z)
    (m : gmap Z Z) : gmap Z Z :=
  foldl (λ m i, alter (λ _, data (start + i)) (ptr_add T buf i) m) m (seqZ 0 len).

Module JNI.

Definition GetArrayLength (array : Z) : M JNIEnv Z := λ env,
  Returned (record_call (GetArrayLength array) env)
           (to_jsize (array_length env array)).

Definition GetArrayRegion (T : JType) (array start len buf : Z)
    : M JNIEnv unit := λ env,
  Returned
    (record_call (GetArrayRegion T array start len buf)
       (with_memory
          (copy_region T (array_data env array) start len buf (memory env))
          env))
    ().

Definition GetArrayElements (T : JType) (array : Z) : M JNIEnv Z := λ env,
  Returned (record_call (GetArrayElements T array) env)
           (array_elements env array).

Definition ReleaseArrayElements (T : JType) (array elems mode : Z)
    : M JNIEnv unit := λ env,
  Returned
    (record_call
       (ReleaseArrayElements T array elems mode
          (read_buffer T (memory env) elems (to_jsize (array_length env array))))
       env)
    ().

Definition FatalError (msg : string) : M JNIEnv unit := λ env,
  if fatal_returns env
  then Returned (record_call (FatalError msg) env) ()
  else Aborted (record_call (FatalError msg) env).

End JNI.

(** The [ARRAY_TRAITS] specialisations: each function forwards to the
    function table, converting [size_t] arguments to [jsize] and the
    [jsize] length to [size_t]. *)
#[global] Instance ARRAY_TRAITS (abi : ABI) (T : JType)
    : ScopedPrimitiveArrayTraits abi T JNIEnv := {
  getArrayRegion array start len out :=
    JNI.GetArrayRegion T array (to_jsize start) (to_jsize len) out;
  getArrayElements array := JNI.GetArrayElements T array;
  releaseArrayElements array buffer mode :=
    JNI.ReleaseArrayElements T array buffer mode;
  getArrayLength array :=
    len ← JNI.GetArrayLength array; mret (to_size_t abi len);
  fatalError msg := JNI.FatalError msg
}.

(** ** [ScopedArrayRO<JType, kNullable>] *)

Module ScopedArrayRO.

(** The data members.  [mEnv] is the environment the monad threads;
    [mBuffer] is the address of the embedded array, whose elements live in
    native memory. *)
Record t := {
  mJavaArray : Z;
  mRawArray : Z;
  mSize : Z;
  mBuffer : Z
}.

Definition BUFFER_SIZE (T : JType) : Z := to_jsize (1024 / sizeof T).

(** [SizeT]: [ssize_t] when nullable, [size_t] otherwise. *)
Definition to_SizeT (abi : ABI) (kNullable : bool) (z : Z) : Z :=
  if kNullable then to_ssize_t abi z else to_size_t abi z.

Section Methods.
Context (abi : ABI) (T : JType) {Env : Type}
        `{!ScopedPrimitiveArrayTraits abi T Env}.
Variable kNullable : bool.

(** The constructor, run on the storage [this] the object is placed in
    (its members hold whatever was there before). *)
Definition ctor (this : t) (javaArray : Z) : M Env t :=
  let this := {| mJavaArray := javaArray; mRawArray := mRawArray this;
                 mSize := mSize this; mBuffer := mBuffer this |} in
  if mJavaArray this =? nullptr then
    let this := {| mJavaArray := mJavaArray this; mRawArray := nullptr;
                   mSize := to_SizeT abi kNullable (-1);
                   mBuffer := mBuffer this |} in
    if negb kNullable then
      fatalError null_message;; mret this
    else mret this
  else
    len ← getArrayLength (mJavaArray this);
    let this := {| mJavaArray := mJavaArray this;
                   mRawArray := mRawArray this;
                   mSize := to_SizeT abi kNullable len;
                   mBuffer := mBuffer this |} in
    if mSize this <=? BUFFER_SIZE T then
      getArrayRegion (mJavaArray this) 0 (to_size_t abi (mSize this))
                     (mBuffer this);;
      mret {| mJavaArray := mJavaArray this; mRawArray := mBuffer this;
              mSize := mSize this; mBuffer := mBuffer this |}
    else
      p ← getArrayElements (mJavaArray this);
      mret {| mJavaArray := mJavaArray this; mRawArray := p;
              mSize := mSize this; mBuffer := mBuffer this |}.

Definition dtor (this : t) : M Env unit :=
  if negb (mRawArray this =? nullptr)
     && negb (mRawArray this =? mBuffer this)
  then releaseArrayElements (mJavaArray this) (mRawArray this) JNI_ABORT
  else mret ().

Definition get (this : t) : Z := mRawArray this.
Definition getJavaArray (this : t) : Z := mJavaArray this.
(** [operator[]] yields a reference: the address of element [n]. *)
Definition operator_index (this : t) (n : Z) : Z :=
  ptr_add T (mRawArray this) n.
Definition begin (this : t) : Z := get this.
Definition end_ (this : t) : Z :=
  if kNullable && (mRawArray this =? nullptr) then get this
  else ptr_add T (get this) (mSize this).
Definition size (this : t) : Z := mSize this.

(** A scope holding one accessor: construct, run the body, destruct. *)
Definition scoped {A} (this : t) (javaArray : Z) (body : t → M Env A)
    : M Env A :=
  array ← ctor this javaArray;
  r ← body array;
  dtor array;;
  mret r.
End Methods.

(** The member functions a client can call between construction and
    destruction, as steps on the object; reading through [operator[]]
    loads from native memory. *)
Inductive member :=
  | call_get | call_getJavaArray | call_index (n : Z)
  | call_begin | call_end | call_size.

Definition call (T : JType) (kNullable : bool) (f : member) (m : gmap Z Z)
    (this : t) : t * option Z :=
  match f with
  | call_get => (this, Some (get this))
  | call_getJavaArray => (this, Some (getJavaArray this))
  | call_index n => (this, load m (operator_index T this n))
  | call_begin => (this, Some (begin this))
  | call_end => (this, Some (end_ T kNullable this))
  | call_size => (this, Some (size this))
  end.

End ScopedArrayRO.

(** ** [ScopedArrayRW<JType>] *)

Module ScopedArrayRW.

(** The data members; [mSize] is a [jsize]. *)
Record t := {
  mJavaArray : Z;
  mRawArray : Z;
  mSize : Z
}.

Section Methods.
Context (abi : ABI) (T : JType) {Env : Type}
        `{!ScopedPrimitiveArrayTraits abi T Env}.

(** The constructor, run on the storage [this] the object is placed in:
    only [mJavaArray] has a member initialiser. *)
Definition ctor (this : t) (javaArray : Z) : M Env t :=
  let this := {| mJavaArray := javaArray; mRawArray := mRawArray this;
                 mSize := mSize this |} in
  if mJavaArray this =? nullptr then
    fatalError null_message;; mret this
  else
    len ← getArrayLength (mJavaArray this);
    let this := {| mJavaArray := mJavaArray this;
                   mRawArray := mRawArray this;
                   mSize := to_jsize len |} in
    p ← getArrayElements (mJavaArray this);
    mret {| mJavaArray := mJavaArray this; mRawArray := p;
            mSize := mSize this |}.

Definition dtor (this : t) : M Env unit :=
  if negb (mRawArray this =? nullptr)
  then releaseArrayElements (mJavaArray this) (mRawArray this) 0
  else mret ().

(** Both overloads of [get], [operator[]], [begin]/[cbegin] and
    [end]/[cend] have the same body. *)
Definition get (this : t) : Z := mRawArray this.
Definition getJavaArray (this : t) : Z := mJavaArray this.
Definition operator_index (this : t) (n : Z) : Z :=
  ptr_add T (mRawArray this) n.
Definition cbegin (this : t) : Z := get this.
Definition cend (this : t) : Z := ptr_add T (get this) (mSize this).
Definition begin (this : t) : Z := get this.
Definition end_ (this : t) : Z := ptr_add T (get this) (mSize this).
Definition size (this : t) : Z := to_size_t abi (mSize this).

Definition scoped {A} (this : t) (javaArray : Z) (body : t → M Env A)
    : M Env A :=
  array ← ctor this javaArray;
  r ← body array;
  dtor array;;
  mret r.
End Methods.

Inductive member :=
  | call_get | call_getJavaArray | call_index (n : Z)
  | call_begin | call_end | call_cbegin | call_cend | call_size.

Definition call (abi : ABI) (T : JType) (f : member) (m : gmap Z Z)
    (this : t) : t * option Z :=
  match f with
  | call_get => (this, Some (get this))
  | call_getJavaArray => (this, Some (getJavaArray this))
  | call_index n => (this, load m (operator_index T this n))
  | call_begin => (this, Some (begin this))
  | call_end => (this, Some (end_ T this))
  | call_cbegin => (this, Some (cbegin this))
  | call_cend => (this, Some (cend T this))
  | call_size => (this, Some (size abi this))
  end.

End ScopedArrayRW.

(** Writing through the reference [operator[]] returned: a store into native
    memory, as a foreign-call-free step of a scope's body. *)
Definition assign (ref v : Z) : M JNIEnv bool := λ env,
  match store (memory env) ref v with
  | Some m => Returned (with_memory m env) true
  | None => Returned env false
  end.

(** ** The two accessors side by side *)

(** The statements that speak of "an accessor" range over the three
    instantiations; [storage] is what the constructor finds where the object
    is placed: the previous content of the members and the address of the
    embedded array. *)
Inductive kind := RO (kNullable : bool) | RW.

Record storage := {
  prior_JavaArray : Z;
  prior_RawArray : Z;
  prior_Size : Z;
  buffer_at : Z
}.

Definition place_RO (st : storage) : ScopedArrayRO.t :=
  {| ScopedArrayRO.mJavaArray := prior_JavaArray st;
     ScopedArrayRO.mRawArray := prior_RawArray st;
     ScopedArrayRO.mSize := prior_Size st;
     ScopedArrayRO.mBuffer := buffer_at st |}.

Definition place_RW (st : storage) : ScopedArrayRW.t :=
  {| ScopedArrayRW.mJavaArray := prior_JavaArray st;
     ScopedArrayRW.mRawArray := prior_RawArray st;
     ScopedArrayRW.mSize := prior_Size st |}.

(** One construct-then-destruct scope with an empty body. *)
Definition lifetime (abi : ABI) (T : JType) (k : kind) (st : storage)
    (javaArray : Z) : M JNIEnv unit :=
  match k with
  | RO kNullable =>
      ScopedArrayRO.scoped abi T kNullable (place_RO st) javaArray (λ _, mret ())
  | RW => ScopedArrayRW.scoped abi T (place_RW st) javaArray (λ _, mret ())
  end.

(** ** Counting calls *)

Definition is_acquire (c : Call) : bool :=
  match c with GetArrayElements _ _ => true | _ => false end.
Definition is_release (c : Call) : bool :=
  match c with ReleaseArrayElements _ _ _ _ _ => true | _ => false end.
Definition is_fatal (c : Call) : bool :=
  match c with FatalError _ => true | _ => false end.

Definition count (f : Call → bool) (cs : list Call) : nat :=
  length (List.filter f cs).

(** The length the runtime reports for a handle: [GetArrayLength]'s result. *)
Definition foreign_length (env : JNIEnv) (array : Z) : Z :=
  to_jsize (array_length env array).

(** Runs [c] and returns how many acquire and release calls it made. *)
Definition counting {A} (c : M JNIEnv A) : M JNIEnv (nat * nat) := λ env,
  match c env with
  | Returned env' _ =>
      Returned env'
        (count is_acquire (calls env') - count is_acquire (calls env),
         count is_release (calls env') - count is_release (calls env))%nat
  | Aborted env' => Aborted env'
  end.


(** The runtime answers the same in [env'] as in [env]. *)
Definition same_runtime (env env' : JNIEnv) : Prop :=
  array_length env' = array_length env
  ∧ array_elements env' = array_elements env
  ∧ fatal_returns env' = fatal_returns env.

(** The number of pins one accessor of kind [k] takes on a handle: one,
    except on the read-only accessor's null-handle and embedded-array
    paths. *)
Definition pins (abi : ABI) (T : JType) (k : kind) (javaArray : Z)
    (env : JNIEnv) : nat :=
  match k with
  | RO kNullable =>
      if (javaArray =? nullptr)
         || (ScopedArrayRO.to_SizeT abi kNullable
               (to_size_t abi (foreign_length env javaArray))
             <=? ScopedArrayRO.BUFFER_SIZE T)
      then 0%nat else 1%nat
  | RW => 1%nat
  end.

(** ** Concrete runtimes and storage *)

(** Memory with [n] zero-filled elements of size [sz] starting at [p]. *)
Definition zeroed (p sz n : Z) : gmap Z Z :=
  list_to_map ((λ i, (p + i * sz, 0)) <$> seqZ 0 n).

(** The handles and lengths of the repository's test. *)
Definition LARGE_ARRAY : Z := 1.
Definition SMALL_ARRAY : Z := 2.
Definition LARGE_ARRAY_SIZE : Z := 8192.
Definition SMALL_ARRAY_SIZE : Z := 32.

(** Where the test's backing storage ([dummyPtr]) is taken to be. *)
Definition dummyPtr : Z := 65536.

(** A runtime in the manner of the test's mock: [LARGE_ARRAY] has
    [LARGE_ARRAY_SIZE] elements and any other handle [SMALL_ARRAY_SIZE];
    acquire answers [dummyPtr]; the callback for a null handle hands control
    back.  Element [i] of every array is [i mod 128]; native memory holds the
    backing storage and one embedded array at [4096]. *)
Definition mock_env : JNIEnv :=
  {| array_length := λ a,
       if a =? LARGE_ARRAY then LARGE_ARRAY_SIZE else SMALL_ARRAY_SIZE;
     array_elements := λ _, dummyPtr;
     array_data := λ _ i, i `mod` 128;
     fatal_returns := true;
     memory := zeroed 4096 1 1024 ∪ zeroed dummyPtr 1 LARGE_ARRAY_SIZE;
     calls := [] |}.

(** The same runtime when acquiring the elements fails. *)
Definition failing_env : JNIEnv :=
  {| array_length := array_length mock_env;
     array_elements := λ _, nullptr;
     array_data := array_data mock_env;
     fatal_returns := true;
     memory := memory mock_env;
     calls := [] |}.

(** Storage that held other data before: the embedded array is at [4096]. *)
Definition used_storage : storage :=
  {| prior_JavaArray := 3; prior_RawArray := 57005; prior_Size := 7;
     buffer_at := 4096 |}.

(** The modes of the release calls in a list of calls. *)
Definition release_modes (cs : list Call) : list Z :=
  omap (λ c, match c with
             | ReleaseArrayElements _ _ _ mode _ => Some mode
             | _ => None
             end) cs.

Definition is_region (c : Call) : bool :=
  match c with GetArrayRegion _ _ _ _ _ => true | _ => false end.

(** The runtime of [mock_env] with a [FatalError] that, as in a real virtual
    machine, does not return. *)
Definition aborting_env : JNIEnv :=
  {| array_length := array_length mock_env;
     array_elements := array_elements mock_env;
     array_data := array_data mock_env;
     fatal_returns := false;
     memory := ∅;
     calls := [] |}.

(** ** The test's mock of the trait table *)

Module ScopedPrimitiveArrayTest.

(** [TestContext], which the test passes where a [JNIEnv*] is expected.  The
    counters are [int]s that start at zero and grow by one per call. *)
Record TestContext := {
  dummyPtr : Z;
  getArrayElementsCallCount : Z;
  releaseArrayElementsCallCount : Z;
  NPEThrown : bool;
  elementsUpdated : bool
}.

Definition resetCallCount (ctx : TestContext) : TestContext :=
  {| dummyPtr := dummyPtr ctx;
     getArrayElementsCallCount := 0;
     releaseArrayElementsCallCount := 0;
     NPEThrown := false;
     elementsUpdated := false |}.

Definition memoryUpdated (ctx : TestContext) : bool :=
  (0 <? releaseArrayElementsCallCount ctx) && elementsUpdated ctx.

(** [ScopedPrimitiveArrayTraits<TestType>]. *)
Definition getArrayRegion (array start len out : Z) : M TestContext unit :=
  mret ().

Definition getArrayElements (array : Z) : M TestContext Z := λ ctx,
  Returned
    {| dummyPtr := dummyPtr ctx;
       getArrayElementsCallCount := getArrayElementsCallCount ctx + 1;
       releaseArrayElementsCallCount := releaseArrayElementsCallCount ctx;
       NPEThrown := NPEThrown ctx;
       elementsUpdated := elementsUpdated ctx |}
    (dummyPtr ctx).

Definition releaseArrayElements (array buffer mode : Z)
    : M TestContext unit := λ ctx,
  Returned
    {| dummyPtr := dummyPtr ctx;
       getArrayElementsCallCount := getArrayElementsCallCount ctx;
       releaseArrayElementsCallCount :=
         if dummyPtr ctx =? buffer
         then releaseArrayElementsCallCount ctx + 1
         else releaseArrayElementsCallCount ctx;
       NPEThrown := NPEThrown ctx;
       elementsUpdated := negb (mode =? JNI_ABORT) |}
    ().

Definition getArrayLength (array : Z) : M TestContext Z :=
  mret (if array =? LARGE_ARRAY then LARGE_ARRAY_SIZE else SMALL_ARRAY_SIZE).

Definition throwNullPointerException : M TestContext unit := λ ctx,
  Returned
    {| dummyPtr := dummyPtr ctx;
       getArrayElementsCallCount := getArrayElementsCallCount ctx;
       releaseArrayElementsCallCount := releaseArrayElementsCallCount ctx;
       NPEThrown := true;
       elementsUpdated := elementsUpdated ctx |}
    ().

(** A context that earlier scopes have used, with its storage at [65536]. *)
Definition used_context : TestContext :=
  {| dummyPtr := 65536;
     getArrayElementsCallCount := 5;
     releaseArrayElementsCallCount := 3;
     NPEThrown := true;
     elementsUpdated := true |}.

(** The mock as a trait table.  Its functions ignore the element type, so it
    serves every element kind, the one-byte kinds having the size of the
    test's [TestType].  The mock's callback for a null handle is
    [throwNullPointerException], which takes no message; it stands where the
    accessors call [fatalError]. *)
Definition TestTraits (abi : ABI) (T : JType)
    : ScopedPrimitiveArrayTraits abi T TestContext :=
  Build_ScopedPrimitiveArrayTraits abi T TestContext
    getArrayRegion getArrayElements releaseArrayElements getArrayLength
    (λ _, throwNullPointerException).

End ScopedPrimitiveArrayTest.

(** * Properties *)

(** ** Integer conversions *)

Lemma size_bits_cases abi : size_bits abi = 32 ∨ size_bits abi = 64.
Proof. destruct abi; auto. Qed.

Lemma to_jsize_range z : - 2 ^ 31 ≤ to_jsize z < 2 ^ 31.
Proof.
  unfold to_jsize, wrap_signed.
  pose proof (Z.mod_pos_bound (z + 2 ^ (32 - 1)) (2 ^ 32) ltac:(lia)). lia.
Qed.

Lemma to_jsize_id z : - 2 ^ 31 ≤ z < 2 ^ 31 → to_jsize z = z.
Proof.
  intros Hz. unfold to_jsize, wrap_signed.
  rewrite Z.mod_small; lia.
Qed.

Lemma to_size_t_id abi z : 0 ≤ z < 2 ^ 32 → to_size_t abi z = z.
Proof.
  intros Hz. unfold to_size_t, wrap_unsigned.
  destruct (size_bits_cases abi) as [-> | ->]; rewrite Z.mod_small; lia.
Qed.

Lemma to_ssize_t_id abi z : - 2 ^ 31 ≤ z < 2 ^ 31 → to_ssize_t abi z = z.
Proof.
  intros Hz. unfold to_ssize_t, wrap_signed.
  destruct (size_bits_cases abi) as [-> | ->]; rewrite Z.mod_small; lia.
Qed.

Lemma to_SizeT_id abi k z :
  0 ≤ z < 2 ^ 31 → ScopedArrayRO.to_SizeT abi k z = z.
Proof.
  intros Hz. unfold ScopedArrayRO.to_SizeT.
  destruct k; [apply to_ssize_t_id | apply to_size_t_id]; lia.
Qed.

Lemma to_size_t_minus_one abi : to_size_t abi (-1) = SIZE_MAX abi.
Proof. by destruct abi. Qed.

Lemma to_ssize_t_minus_one abi : to_ssize_t abi (-1) = -1.
Proof. by destruct abi. Qed.

Lemma sizeof_pos T : 0 < sizeof T.
Proof. destruct T; reflexivity. Qed.

Lemma BUFFER_SIZE_eq T : ScopedArrayRO.BUFFER_SIZE T = 1024 / sizeof T.
Proof. by destruct T. Qed.

Lemma BUFFER_SIZE_range T : 128 ≤ ScopedArrayRO.BUFFER_SIZE T ≤ 1024.
Proof. destruct T; vm_compute; split; discriminate. Qed.

Lemma ptr_add_inj T p i j : ptr_add T p i = ptr_add T p j → i = j.
Proof. unfold ptr_add. pose proof (sizeof_pos T). nia. Qed.

(** ** Native memory *)

Lemma load_store m ref v m' : store m ref v = Some m' → load m' ref = Some v.
Proof.
  unfold store, load. destruct (m !! ref); [|done].
  intros [= <-]. apply lookup_insert_eq.
Qed.


Lemma store_keeps_storage m ref v m' x :
  store m ref v = Some m' → is_Some (m' !! x) ↔ is_Some (m !! x).
Proof.
  unfold store. destruct (m !! ref) as [w|] eqn:Hw; [|done].
  intros [= <-]. rewrite lookup_insert. case_decide; subst; [|done].
  rewrite Hw. split; eauto.
Qed.

Lemma copy_region_snoc T data start buf m (n : nat) :
  copy_region T data start (Z.of_nat (S n)) buf m =
  alter (λ _, data (start + Z.of_nat n)) (ptr_add T buf (Z.of_nat n))
        (copy_region T data start (Z.of_nat n) buf m).
Proof. unfold copy_region. by rewrite seqZ_S, foldl_snoc, Z.add_0_l. Qed.

(** The copy neither creates nor removes storage. *)
Lemma copy_region_keeps_storage T data start len buf m x :
  is_Some (copy_region T data start len buf m !! x) ↔ is_Some (m !! x).
Proof.
  destruct (decide (len ≤ 0)) as [Hle | Hlt].
  { unfold copy_region. by rewrite seqZ_nil. }
  rewrite <- (Z2Nat.id len) by lia.
  induction (Z.to_nat len) as [|n IH]; [done|].
  rewrite copy_region_snoc, lookup_alter. case_decide; [|done].
  rewrite <- IH. subst. destruct (copy_region _ _ _ _ _ _ !! _); simpl;
    split; intros [? ?]; eauto; done.
Qed.

(** Elements outside the destination range are left alone. *)
Lemma copy_region_outside T data start len buf m x :
  (∀ i, 0 ≤ i < len → x ≠ ptr_add T buf i) →
  copy_region T data start len buf m !! x = m !! x.
Proof.
  destruct (decide (len ≤ 0)) as [Hle | Hlt].
  { unfold copy_region. by rewrite seqZ_nil. }
  rewrite <- (Z2Nat.id len) by lia.
  induction (Z.to_nat len) as [|n IH]; intros Hout; [done|].
  rewrite copy_region_snoc, lookup_alter_ne
    by (intros E; eapply Hout; [|symmetry; exact E]; lia).
  apply IH. intros i Hi. apply Hout. lia.
Qed.

(** Every element of the range that is backed by storage receives the
    array's element. *)
Lemma copy_region_inside T data start len buf m i :
  0 ≤ i < len → is_Some (m !! ptr_add T buf i) →
  copy_region T data start len buf m !! ptr_add T buf i = Some (data (start + i)).
Proof.
  intros Hi Hm. assert (0 ≤ len) as Hlen by lia. revert Hi.
  rewrite <- (Z2Nat.id len) by done. clear Hlen.
  induction (Z.to_nat len) as [|n IH]; intros Hi; [lia|].
  rewrite copy_region_snoc.
  destruct (decide (i = Z.of_nat n)) as [-> | Hne].
  - rewrite lookup_alter_eq.
    apply (copy_region_keeps_storage T data start (Z.of_nat n) buf) in Hm.
    by destruct Hm as [w ->].
  - rewrite lookup_alter_ne by (intros E; apply ptr_add_inj in E; lia).
    apply IH. lia.
Qed.

Lemma region_allocated_copy T data start len buf m p n :
  region_allocated T m p n →
  region_allocated T (copy_region T data start len buf m) p n.
Proof. intros H i Hi. apply copy_region_keeps_storage. by apply H. Qed.


Lemma region_allocated_check T m p n :
  region_allocatedb T m p n = true → region_allocated T m p n.
Proof.
  unfold region_allocatedb. rewrite forallb_forall.
  intros H i Hi. eapply bool_decide_unpack, Is_true_true, H.
  apply list_elem_of_In, elem_of_seqZ. lia.
Qed.

(** The storage of the concrete runtime. *)
Lemma mock_env_embedded_array :
  region_allocated jbyte (memory mock_env) 4096 (ScopedArrayRO.BUFFER_SIZE jbyte).
Proof. apply region_allocated_check. vm_compute. reflexivity. Qed.


Lemma read_buffer_lookup T m p n i :
  0 ≤ i < n → read_buffer T m p n !! Z.to_nat i = Some (m !! ptr_add T p i).
Proof.
  intros Hi. unfold read_buffer.
  rewrite list_lookup_fmap, lookup_seqZ_lt by lia.
  simpl. do 3 f_equal. lia.
Qed.

(** ** Counting *)

Lemma count_app f cs1 cs2 :
  count f (cs1 ++ cs2) = (count f cs1 + count f cs2)%nat.
Proof. unfold count. by rewrite List.filter_app, length_app. Qed.

(** ** What the constructors and destructors do, path by path *)

Ltac run_calls :=
  unfold mbind, mret, M_bind, M_ret, getArrayLength, getArrayRegion,
    getArrayElements, releaseArrayElements, fatalError, ARRAY_TRAITS,
    JNI.GetArrayLength, JNI.GetArrayRegion, JNI.GetArrayElements,
    JNI.ReleaseArrayElements, JNI.FatalError;
  simpl.


Lemma RO_ctor_null abi T k this env :
  ScopedArrayRO.ctor abi T k this nullptr env =
  let array := {| ScopedArrayRO.mJavaArray := nullptr;
                  ScopedArrayRO.mRawArray := nullptr;
                  ScopedArrayRO.mSize := ScopedArrayRO.to_SizeT abi k (-1);
                  ScopedArrayRO.mBuffer := ScopedArrayRO.mBuffer this |} in
  if k then Returned env array
  else if fatal_returns env
       then Returned (record_call (FatalError null_message) env) array
       else Aborted (record_call (FatalError null_message) env).
Proof.
  unfold ScopedArrayRO.ctor. run_calls.
  destruct k; simpl; [done|]. by destruct (fatal_returns env).
Qed.

Lemma RO_ctor_small abi T k this a env :
  a ≠ nullptr → 0 ≤ foreign_length env a ≤ ScopedArrayRO.BUFFER_SIZE T →
  ScopedArrayRO.ctor abi T k this a env =
  Returned
    (record_call
       (GetArrayRegion T a 0 (foreign_length env a) (ScopedArrayRO.mBuffer this))
       (with_memory
          (copy_region T (array_data env a) 0 (foreign_length env a)
             (ScopedArrayRO.mBuffer this) (memory env))
          (record_call (GetArrayLength a) env)))
    {| ScopedArrayRO.mJavaArray := a;
       ScopedArrayRO.mRawArray := ScopedArrayRO.mBuffer this;
       ScopedArrayRO.mSize := foreign_length env a;
       ScopedArrayRO.mBuffer := ScopedArrayRO.mBuffer this |}.
Proof.
  intros Ha Hlen. pose proof (BUFFER_SIZE_range T).
  unfold ScopedArrayRO.ctor. run_calls.
  apply Z.eqb_neq in Ha as ->. fold (foreign_length env a).
  rewrite (to_size_t_id abi (foreign_length env a)) by lia.
  rewrite (to_SizeT_id abi k) by lia.
  destruct (Z.leb_spec (foreign_length env a) (ScopedArrayRO.BUFFER_SIZE T));
    [|lia].
  rewrite (to_size_t_id abi (foreign_length env a)) by lia.
  rewrite (to_jsize_id (foreign_length env a)) by lia.
  done.
Qed.

Lemma RO_ctor_large abi T k this a env :
  a ≠ nullptr → ScopedArrayRO.BUFFER_SIZE T < foreign_length env a →
  ScopedArrayRO.ctor abi T k this a env =
  Returned
    (record_call (GetArrayElements T a) (record_call (GetArrayLength a) env))
    {| ScopedArrayRO.mJavaArray := a;
       ScopedArrayRO.mRawArray := array_elements env a;
       ScopedArrayRO.mSize := foreign_length env a;
       ScopedArrayRO.mBuffer := ScopedArrayRO.mBuffer this |}.
Proof.
  intros Ha Hlen. pose proof (BUFFER_SIZE_range T).
  pose proof (to_jsize_range (array_length env a)).
  unfold ScopedArrayRO.ctor. run_calls.
  apply Z.eqb_neq in Ha as ->. fold (foreign_length env a).
  unfold foreign_length in *.
  rewrite (to_size_t_id abi (to_jsize _)) by lia.
  rewrite (to_SizeT_id abi k) by lia.
  by destruct (Z.leb_spec (to_jsize (array_length env a))
                          (ScopedArrayRO.BUFFER_SIZE T)); [lia|].
Qed.

Lemma RO_dtor_eq abi T this env :
  ScopedArrayRO.dtor abi T this env =
  if decide (ScopedArrayRO.mRawArray this ≠ nullptr
             ∧ ScopedArrayRO.mRawArray this ≠ ScopedArrayRO.mBuffer this)
  then Returned
         (record_call
            (ReleaseArrayElements T (ScopedArrayRO.mJavaArray this)
               (ScopedArrayRO.mRawArray this) JNI_ABORT
               (read_buffer T (memory env) (ScopedArrayRO.mRawArray this)
                  (foreign_length env (ScopedArrayRO.mJavaArray this))))
            env) ()
  else Returned env ().
Proof.
  unfold ScopedArrayRO.dtor. run_calls.
  destruct (Z.eqb_spec (ScopedArrayRO.mRawArray this) nullptr);
    destruct (Z.eqb_spec (ScopedArrayRO.mRawArray this)
                         (ScopedArrayRO.mBuffer this));
    simpl; case_decide; try done; tauto.
Qed.

Lemma RW_ctor_null abi T this env :
  ScopedArrayRW.ctor abi T this nullptr env =
  let array := {| ScopedArrayRW.mJavaArray := nullptr;
                  ScopedArrayRW.mRawArray := ScopedArrayRW.mRawArray this;
                  ScopedArrayRW.mSize := ScopedArrayRW.mSize this |} in
  if fatal_returns env
  then Returned (record_call (FatalError null_message) env) array
  else Aborted (record_call (FatalError null_message) env).
Proof.
  unfold ScopedArrayRW.ctor. run_calls. by destruct (fatal_returns env).
Qed.

Lemma RW_ctor_nonnull abi T this a env :
  a ≠ nullptr →
  ScopedArrayRW.ctor abi T this a env =
  Returned
    (record_call (GetArrayElements T a) (record_call (GetArrayLength a) env))
    {| ScopedArrayRW.mJavaArray := a;
       ScopedArrayRW.mRawArray := array_elements env a;
       ScopedArrayRW.mSize := to_jsize (to_size_t abi (foreign_length env a)) |}.
Proof.
  intros Ha. unfold ScopedArrayRW.ctor. run_calls.
  by apply Z.eqb_neq in Ha as ->.
Qed.

Lemma RW_dtor_eq abi T this env :
  ScopedArrayRW.dtor abi T this env =
  if decide (ScopedArrayRW.mRawArray this ≠ nullptr)
  then Returned
         (record_call
            (ReleaseArrayElements T (ScopedArrayRW.mJavaArray this)
               (ScopedArrayRW.mRawArray this) 0
               (read_buffer T (memory env) (ScopedArrayRW.mRawArray this)
                  (foreign_length env (ScopedArrayRW.mJavaArray this))))
            env) ()
  else Returned env ().
Proof.
  unfold ScopedArrayRW.dtor. run_calls.
  destruct (Z.eqb_spec (ScopedArrayRW.mRawArray this) nullptr);
    simpl; case_decide; done.
Qed.

(** ** The read-only accessor on a non-null handle *)

(** C1. For a non-null handle whose reported length is at most
    [BUFFER_SIZE] (1024 divided by the element size, rounded down), the
    read-only constructor calls the length query and then the region copy
    for the whole range [0, length) into the embedded array, and nothing
    else (in particular no acquire); the view pointer is the embedded array,
    which, being storage of the object, then holds the array's elements; the
    destructor makes no call. *)
Theorem ro_small_array_is_copied abi T k this a env :
  a ≠ nullptr →
  0 ≤ foreign_length env a ≤ ScopedArrayRO.BUFFER_SIZE T →
  ScopedArrayRO.BUFFER_SIZE T = 1024 `div` sizeof T
  ∧ ∃ env1 array,
      ScopedArrayRO.ctor abi T k this a env = Returned env1 array ∧
      calls env1 =
        calls env ++ [GetArrayLength a;
                      GetArrayRegion T a 0 (foreign_length env a)
                                     (ScopedArrayRO.mBuffer this)] ∧
      count is_acquire (calls env1) = count is_acquire (calls env) ∧
      ScopedArrayRO.get array = ScopedArrayRO.mBuffer this ∧
      ScopedArrayRO.size array = foreign_length env a ∧
      (region_allocated T (memory env) (ScopedArrayRO.mBuffer this)
                        (ScopedArrayRO.BUFFER_SIZE T) →
       ∀ i, 0 ≤ i < foreign_length env a →
         load (memory env1) (ScopedArrayRO.operator_index T array i)
         = Some (array_data env a i)) ∧
      ScopedArrayRO.dtor abi T array env1 = Returned env1 ().
Proof.
  intros Ha Hlen. split; [apply BUFFER_SIZE_eq|]. eexists _, _.
  split; [by apply RO_ctor_small|]. simpl.
  split; [by rewrite <- app_assoc|].
  split.
  { rewrite !count_app. unfold count. simpl. lia. }
  do 2 (split; [done|]). split.
  - intros Hbuf i Hi. unfold load, ScopedArrayRO.operator_index. simpl.
    rewrite copy_region_inside; [done | lia |]. apply Hbuf. lia.
  - rewrite RO_dtor_eq. simpl. case_decide; [tauto | done].
Qed.

Lemma ro_small_array_is_copied_witness :
  (2 ≠ nullptr
   ∧ 0 ≤ foreign_length mock_env 2 ≤ ScopedArrayRO.BUFFER_SIZE jbyte)
  ∧ ∃ env1 array,
      ScopedArrayRO.ctor LP64 jbyte false (place_RO used_storage) 2 mock_env
      = Returned env1 array
      ∧ ScopedArrayRO.get array = 4096
      ∧ load (memory env1) (ScopedArrayRO.operator_index jbyte array 5)
        = Some 5
      ∧ ScopedArrayRO.dtor LP64 jbyte array env1 = Returned env1 ().
Proof.
  assert (H1 : 2 ≠ nullptr) by discriminate.
  assert (H2 : 0 ≤ foreign_length mock_env 2 ≤ ScopedArrayRO.BUFFER_SIZE jbyte)
    by (vm_compute; split; discriminate).
  split; [by split|].
  destruct (ro_small_array_is_copied LP64 jbyte false (place_RO used_storage)
              2 mock_env H1 H2)
    as (_ & env1 & array & Hc & _ & _ & Hg & _ & Hdata & Hd).
  exists env1, array. repeat split; [done | done | | done].
  apply (Hdata mock_env_embedded_array 5). clear. by vm_compute.
Defined.

(** C2 (amended). For a non-null handle whose reported length exceeds
    [BUFFER_SIZE], the read-only constructor calls the length query and the
    acquire operation, and the view pointer is the pointer acquire returned.
    The destructor makes exactly one release call, with mode [JNI_ABORT],
    when that pointer is neither null nor the embedded array, and no call
    otherwise; no release with a write-back mode is ever made. *)
Theorem ro_large_array_is_pinned abi T k this a env :
  a ≠ nullptr →
  ScopedArrayRO.BUFFER_SIZE T < foreign_length env a →
  ∃ env1 array env2,
    ScopedArrayRO.ctor abi T k this a env = Returned env1 array ∧
    calls env1 = calls env ++ [GetArrayLength a; GetArrayElements T a] ∧
    ScopedArrayRO.get array = array_elements env a ∧
    ScopedArrayRO.dtor abi T array env1 = Returned env2 () ∧
    calls env2 =
      calls env1 ++
      if decide (array_elements env a ≠ nullptr
                 ∧ array_elements env a ≠ ScopedArrayRO.mBuffer this)
      then [ReleaseArrayElements T a (array_elements env a) JNI_ABORT
              (read_buffer T (memory env) (array_elements env a)
                           (foreign_length env a))]
      else [].
Proof.
  intros Ha Hlen.
  pose proof (RO_ctor_large abi T k this a env Ha Hlen) as Hc.
  case_decide as Hp; eexists _, _, _; (split; [exact Hc|]); simpl;
    (split; [by rewrite <- app_assoc|]); (split; [done|]);
    rewrite RO_dtor_eq; simpl.
  - rewrite decide_True by done. by split.
  - rewrite decide_False by done. by rewrite app_nil_r.
Qed.

Lemma ro_large_array_is_pinned_witness :
  (1 ≠ nullptr ∧ ScopedArrayRO.BUFFER_SIZE jbyte < foreign_length mock_env 1)
  ∧ ∃ env1 array env2,
      ScopedArrayRO.ctor LP64 jbyte true (place_RO used_storage) 1 mock_env
      = Returned env1 array
      ∧ ScopedArrayRO.get array = dummyPtr
      ∧ ScopedArrayRO.dtor LP64 jbyte array env1 = Returned env2 ()
      ∧ count is_release (calls env2) = 1%nat.
Proof.
  assert (H1 : 1 ≠ nullptr) by discriminate.
  assert (H2 : ScopedArrayRO.BUFFER_SIZE jbyte < foreign_length mock_env 1)
    by reflexivity.
  split; [by split|].
  destruct (ro_large_array_is_pinned LP64 jbyte true (place_RO used_storage)
              1 mock_env H1 H2)
    as (env1 & array & env2 & Hc & Hcs1 & Hg & Hd & Hcs2).
  exists env1, array, env2. repeat split; [done | done | done |].
  rewrite Hcs2, Hcs1. reflexivity.
Defined.

(** The claim C2 as written fails when acquiring the elements fails: the
    handle is non-null and longer than [BUFFER_SIZE], the view pointer is
    the null pointer acquire returned, and the whole lifetime consists of the
    length query and the acquire, with no release. *)
Lemma ro_failed_acquire_is_not_released :
  1 ≠ nullptr
  ∧ ScopedArrayRO.BUFFER_SIZE jbyte < foreign_length failing_env 1
  ∧ ScopedArrayRO.scoped LP64 jbyte false (place_RO used_storage) 1
      (λ array, mret (ScopedArrayRO.get array)) failing_env
    = Returned
        (record_call (GetArrayElements jbyte 1)
           (record_call (GetArrayLength 1) failing_env))
        nullptr
  ∧ count is_release
      (calls (final_env
         (ScopedArrayRO.scoped LP64 jbyte false (place_RO used_storage) 1
            (λ array, mret (ScopedArrayRO.get array)) failing_env))) = 0%nat.
Proof. repeat split; done. Qed.

(** ** The read-write accessor on a non-null handle *)

Lemma jsize_round_trip abi z :
  - 2 ^ 31 ≤ z < 2 ^ 31 → to_jsize (to_size_t abi z) = z.
Proof.
  intros Hz. unfold to_jsize, to_size_t, wrap_signed, wrap_unsigned.
  assert (Hdiv : (2 ^ 32 | 2 ^ size_bits abi)).
  { destruct (size_bits_cases abi) as [-> | ->];
      [by exists 1 | by exists (2 ^ 32)]. }
  rewrite <- (Zplus_mod_idemp_l (z `mod` _)), Z.mod_mod_divide by done.
  rewrite Zplus_mod_idemp_l, Z.mod_small; lia.
Qed.

(** C3 (amended). For a non-null handle of any length, the read-write
    constructor makes exactly one acquire call (after the length query, and
    never a region copy), and the view pointer is the pointer it returned.
    When that pointer is non-null, the destructor makes exactly one release
    call, on that pointer and with the write-back mode [0], and the elements
    the release finds in the buffer are the ones the view holds when the
    scope's body ends, so that every mutation made through the view is among
    them.  When the pointer is null the destructor makes no call. *)
Theorem rw_pins_and_writes_back abi T this a env {A}
    (body : ScopedArrayRW.t → M JNIEnv A) :
  a ≠ nullptr →
  (∀ array env1, ∃ env2 r,
     body array env1 = Returned env2 r
     ∧ array_length env2 = array_length env1) →
  ∃ env1 array env2 r env3,
    ScopedArrayRW.ctor abi T this a env = Returned env1 array ∧
    calls env1 = calls env ++ [GetArrayLength a; GetArrayElements T a] ∧
    ScopedArrayRW.get array = array_elements env a ∧
    body array env1 = Returned env2 r ∧
    ScopedArrayRW.dtor abi T array env2 = Returned env3 () ∧
    ScopedArrayRW.scoped abi T this a body env = Returned env3 r ∧
    if decide (array_elements env a ≠ nullptr) then
      ∃ seen,
        calls env3 =
          calls env2
          ++ [ReleaseArrayElements T a (ScopedArrayRW.get array) 0 seen]
        ∧ ∀ n, 0 ≤ n < foreign_length env a →
            seen !! Z.to_nat n
            = Some (load (memory env2)
                         (ScopedArrayRW.operator_index T array n))
    else calls env3 = calls env2.
Proof.
  intros Ha Hbody.
  pose proof (RW_ctor_nonnull abi T this a env Ha) as Hc.
  set (array := {| ScopedArrayRW.mJavaArray := a;
                   ScopedArrayRW.mRawArray := array_elements env a;
                   ScopedArrayRW.mSize :=
                     to_jsize (to_size_t abi (foreign_length env a)) |}) in *.
  destruct (Hbody array
    (record_call (GetArrayElements T a) (record_call (GetArrayLength a) env)))
    as (env2 & r & Hb & Hlen).
  assert (Hs : ∀ env3, ScopedArrayRW.dtor abi T array env2 = Returned env3 () →
                 ScopedArrayRW.scoped abi T this a body env = Returned env3 r).
  { intros env3 Hd. unfold ScopedArrayRW.scoped, mbind, M_bind at 1.
    rewrite Hc. unfold mbind, M_bind at 1. rewrite Hb.
    unfold mbind, M_bind. by rewrite Hd. }
  pose proof (RW_dtor_eq abi T array env2) as Hd. simpl in Hd.
  case_decide as Hp.
  - eexists _, array, env2, r, _.
    split; [exact Hc|]. simpl. split; [by rewrite <- app_assoc|].
    split; [done|]. split; [exact Hb|]. split; [exact Hd|].
    split; [by apply Hs|]. eexists. split; [done|].
    intros n Hn. unfold foreign_length. rewrite Hlen. simpl.
    by rewrite read_buffer_lookup.
  - eexists _, array, env2, r, _.
    split; [exact Hc|]. simpl. split; [by rewrite <- app_assoc|].
    split; [done|]. split; [exact Hb|]. split; [exact Hd|].
    split; [by apply Hs|]. done.
Qed.

Lemma rw_pins_and_writes_back_witness :
  2 ≠ nullptr
  ∧ ∃ env1 array env2 r env3 seen,
      ScopedArrayRW.ctor LP64 jbyte (place_RW used_storage) 2 mock_env
      = Returned env1 array
      ∧ assign (ScopedArrayRW.operator_index jbyte array 3) 9 env1
        = Returned env2 r
      ∧ ScopedArrayRW.dtor LP64 jbyte array env2 = Returned env3 ()
      ∧ calls env3
        = calls env2
          ++ [ReleaseArrayElements jbyte 2 (ScopedArrayRW.get array) 0 seen]
      ∧ seen !! 3%nat
        = Some (load (memory env2) (ScopedArrayRW.operator_index jbyte array 3)).
Proof.
  assert (H1 : 2 ≠ nullptr) by discriminate.
  split; [done|].
  destruct (rw_pins_and_writes_back LP64 jbyte (place_RW used_storage) 2
              mock_env
              (λ array, assign (ScopedArrayRW.operator_index jbyte array 3) 9)
              H1)
    as (env1 & array & env2 & r & env3 & Hc & Hcs1 & Hg & Hb & Hd & Hs & Hrel).
  { intros array env1. unfold assign.
    destruct (store _ _ _); eexists _, _; by split. }
  rewrite decide_True in Hrel by discriminate.
  destruct Hrel as (seen & Hcs3 & Hseen).
  exists env1, array, env2, r, env3, seen.
  repeat split; try assumption.
  apply (Hseen 3). clear. by vm_compute.
Defined.

(** The scenario of the test, with a write through the view: the release
    call finds the written element in the buffer. *)
Example rw_mutation_reaches_release :
  match
    ScopedArrayRW.scoped LP64 jbyte (place_RW used_storage) SMALL_ARRAY
      (λ array, assign (ScopedArrayRW.operator_index jbyte array 3) 9) mock_env
  with
  | Returned env3 stored =>
      stored = true
      ∧ calls env3
        = [GetArrayLength SMALL_ARRAY; GetArrayElements jbyte SMALL_ARRAY;
           ReleaseArrayElements jbyte SMALL_ARRAY dummyPtr 0
             (<[3%nat := Some 9]> (replicate 32 (Some 0)))]
  | Aborted _ => False
  end.
Proof. vm_compute. split; reflexivity. Qed.

(** The claim C3 as written fails when acquiring the elements fails: the
    constructor made its acquire call, the handle is non-null, and the
    lifetime ends without any release. *)
Lemma rw_failed_acquire_is_not_released :
  2 ≠ nullptr
  ∧ ScopedArrayRW.scoped LP64 jbyte (place_RW used_storage) 2
      (λ array, mret (ScopedArrayRW.get array)) failing_env
    = Returned
        (record_call (GetArrayElements jbyte 2)
           (record_call (GetArrayLength 2) failing_env))
        nullptr
  ∧ count is_acquire
      (calls (final_env
         (ScopedArrayRW.scoped LP64 jbyte (place_RW used_storage) 2
            (λ array, mret (ScopedArrayRW.get array)) failing_env))) = 1%nat
  ∧ count is_release
      (calls (final_env
         (ScopedArrayRW.scoped LP64 jbyte (place_RW used_storage) 2
            (λ array, mret (ScopedArrayRW.get array)) failing_env))) = 0%nat.
Proof. repeat split; done. Qed.

(** ** Null handles *)

(** C5. The nullable read-only accessor on a null handle: [size()] is [-1],
    [get()], [begin()] and [end()] are null, and neither the constructor nor
    the destructor makes any foreign call: the environment, and with it the
    list of calls, is the same after each of them. *)
Theorem nullable_null_handle_is_empty abi T this env :
  ∃ array,
    ScopedArrayRO.ctor abi T true this nullptr env = Returned env array ∧
    ScopedArrayRO.size array = -1 ∧
    ScopedArrayRO.get array = nullptr ∧
    ScopedArrayRO.begin array = nullptr ∧
    ScopedArrayRO.end_ T true array = nullptr ∧
    ScopedArrayRO.dtor abi T array env = Returned env () ∧
    ScopedArrayRO.scoped abi T true this nullptr
      (λ array, mret (ScopedArrayRO.size array)) env = Returned env (-1).
Proof.
  eexists. split; [by rewrite RO_ctor_null|]. simpl.
  split; [apply to_ssize_t_minus_one|].
  repeat (split; [done|]).
  unfold ScopedArrayRO.scoped, mbind, M_bind. rewrite RO_ctor_null. simpl.
  unfold mret, M_ret. by rewrite to_ssize_t_minus_one.
Qed.

(** C8. The non-nullable read-only accessor on a null handle, when the
    fatal-error callback hands control back: the [-1] the constructor stores
    in its [size_t] member reads back through [size()] as [SIZE_MAX], that
    is [2 ^ w - 1] for a [w]-bit [size_t], a non-negative count. *)
Theorem nonnullable_null_handle_size_is_SIZE_MAX abi T this env :
  fatal_returns env = true →
  ∃ env1 array,
    ScopedArrayRO.ctor abi T false this nullptr env = Returned env1 array ∧
    ScopedArrayRO.size array = 2 ^ size_bits abi - 1 ∧
    ScopedArrayRO.size array = SIZE_MAX abi ∧
    0 < ScopedArrayRO.size array.
Proof.
  intros Hret. eexists _, _.
  split; [by rewrite RO_ctor_null, Hret|]. simpl.
  rewrite to_size_t_minus_one. by destruct abi.
Qed.

Lemma nonnullable_null_handle_size_is_SIZE_MAX_witness :
  fatal_returns mock_env = true
  ∧ ∃ env1 array,
      ScopedArrayRO.ctor LP64 jbyte false (place_RO used_storage) nullptr mock_env
      = Returned env1 array
      ∧ ScopedArrayRO.size array = 18446744073709551615.
Proof.
  split; [reflexivity|].
  destruct (nonnullable_null_handle_size_is_SIZE_MAX LP64 jbyte
              (place_RO used_storage) mock_env eq_refl)
    as (env1 & array & Hc & Hs & _).
  by exists env1, array.
Defined.

(** The read-only half of C4: on a null handle the non-nullable read-only
    constructor reports the fatal error once and makes no other call, and
    when the callback returns the members hold the null pointer and the
    [-1] sentinel, so that the destructor makes no call either. *)
Lemma ro_null_handle_is_fatal abi T this env :
  let reported := record_call (FatalError null_message) env in
  let array := {| ScopedArrayRO.mJavaArray := nullptr;
                  ScopedArrayRO.mRawArray := nullptr;
                  ScopedArrayRO.mSize := SIZE_MAX abi;
                  ScopedArrayRO.mBuffer := ScopedArrayRO.mBuffer this |} in
  ScopedArrayRO.ctor abi T false this nullptr env
  = (if fatal_returns env then Returned reported array else Aborted reported)
  ∧ calls reported = calls env ++ [FatalError null_message]
  ∧ ScopedArrayRO.dtor abi T array reported = Returned reported ().
Proof.
  simpl. rewrite RO_ctor_null. simpl. rewrite to_size_t_minus_one.
  by rewrite RO_dtor_eq.
Qed.

(** C4, at the input where it fails.  The read-write constructor on a null
    handle reports the fatal error and assigns neither [mRawArray] nor
    [mSize]: with a callback that returns, the object keeps what its storage
    held before (here the non-null [57005] and the count [7]), and its
    destructor hands that pointer to a release call. *)
Theorem rw_null_handle_leaves_members_unset :
  ScopedArrayRW.ctor LP64 jbyte (place_RW used_storage) nullptr mock_env
  = Returned (record_call (FatalError null_message) mock_env)
      {| ScopedArrayRW.mJavaArray := nullptr;
         ScopedArrayRW.mRawArray := 57005;
         ScopedArrayRW.mSize := 7 |}
  ∧ calls (final_env
      (ScopedArrayRW.scoped LP64 jbyte (place_RW used_storage) nullptr
         (λ _, mret ()) mock_env))
    = [FatalError null_message;
       ReleaseArrayElements jbyte nullptr 57005 0
         (read_buffer jbyte (memory mock_env) 57005 32)].
Proof. split; reflexivity. Qed.

(** The defect in general: whatever the storage held, a returning callback
    leaves it in [mRawArray] and [mSize]. *)
Lemma rw_null_handle_keeps_storage abi T this env :
  fatal_returns env = true →
  ScopedArrayRW.ctor abi T this nullptr env
  = Returned (record_call (FatalError null_message) env)
      {| ScopedArrayRW.mJavaArray := nullptr;
         ScopedArrayRW.mRawArray := ScopedArrayRW.mRawArray this;
         ScopedArrayRW.mSize := ScopedArrayRW.mSize this |}.
Proof. intros Hret. by rewrite RW_ctor_null, Hret. Qed.

(** C6, at the input where it fails.  A read-write accessor on a null
    handle acquires nothing, yet with a returning callback its lifetime
    contains a release call (of the pointer its storage held before). *)
Theorem rw_null_handle_releases_unacquired :
  count is_acquire
    (calls (final_env (lifetime LP64 jbyte RW used_storage nullptr mock_env)))
  = 0%nat
  ∧ count is_release
      (calls (final_env (lifetime LP64 jbyte RW used_storage nullptr mock_env)))
    = 1%nat.
Proof. split; reflexivity. Qed.

(** ** Whole lifetimes *)

Lemma RO_ctor_nonnull abi T k this a env :
  a ≠ nullptr →
  let sz := ScopedArrayRO.to_SizeT abi k (to_size_t abi (foreign_length env a)) in
  let env1 := record_call (GetArrayLength a) env in
  ScopedArrayRO.ctor abi T k this a env =
  if sz <=? ScopedArrayRO.BUFFER_SIZE T then
    Returned
      (record_call
         (GetArrayRegion T a 0 (to_jsize (to_size_t abi sz))
                         (ScopedArrayRO.mBuffer this))
         (with_memory
            (copy_region T (array_data env a) 0 (to_jsize (to_size_t abi sz))
               (ScopedArrayRO.mBuffer this) (memory env))
            env1))
      {| ScopedArrayRO.mJavaArray := a;
         ScopedArrayRO.mRawArray := ScopedArrayRO.mBuffer this;
         ScopedArrayRO.mSize := sz;
         ScopedArrayRO.mBuffer := ScopedArrayRO.mBuffer this |}
  else
    Returned (record_call (GetArrayElements T a) env1)
      {| ScopedArrayRO.mJavaArray := a;
         ScopedArrayRO.mRawArray := array_elements env a;
         ScopedArrayRO.mSize := sz;
         ScopedArrayRO.mBuffer := ScopedArrayRO.mBuffer this |}.
Proof.
  intros Ha. unfold ScopedArrayRO.ctor. run_calls.
  apply Z.eqb_neq in Ha as ->. fold (foreign_length env a).
  by destruct (_ <=? _).
Qed.

Lemma same_runtime_refl env : same_runtime env env.
Proof. done. Qed.

Lemma same_runtime_trans env1 env2 env3 :
  same_runtime env1 env2 → same_runtime env2 env3 → same_runtime env1 env3.
Proof. unfold same_runtime. intros (-> & -> & ->) (-> & -> & ->). done. Qed.


(** A lifetime with an empty body, outside the read-write null-handle path
    and with an acquire that succeeds: the calls it adds contain as many
    releases as acquires, namely [pins]. *)
Lemma lifetime_calls abi T k st a env :
  (a = nullptr → k = RO true ∨ (k = RO false ∧ fatal_returns env = true)) →
  (a ≠ nullptr →
   array_elements env a ≠ nullptr ∧ buffer_at st ≠ array_elements env a) →
  ∃ env' cs,
    lifetime abi T k st a env = Returned env' ()
    ∧ calls env' = calls env ++ cs
    ∧ same_runtime env env'
    ∧ count is_acquire cs = pins abi T k a env
    ∧ count is_release cs = pins abi T k a env.
Proof.
  intros Hnull Hpin. unfold lifetime, pins.
  assert (Hclose : ∀ env' cs n,
    calls env' = calls env ++ cs → same_runtime env env' →
    count is_acquire cs = n → count is_release cs = n →
    ∃ env'' cs',
      Returned (A := ()) env' () = Returned env'' ()
      ∧ calls env'' = calls env ++ cs' ∧ same_runtime env env''
      ∧ count is_acquire cs' = n ∧ count is_release cs' = n)
    by (intros env' cs n ????; by exists env', cs).
  destruct (decide (a = nullptr)) as [-> | Ha].
  - destruct (Hnull eq_refl) as [-> | [-> Hret]];
      unfold ScopedArrayRO.scoped, mbind, M_bind; rewrite RO_ctor_null; simpl.
    + unfold mret, M_ret. apply (Hclose _ [] 0%nat); by rewrite ?app_nil_r.
    + rewrite Hret. unfold mret, M_ret.
      eapply Hclose; [simpl; reflexivity | done..].
  - destruct (Hpin Ha) as [Hp Hbuf].
    assert ((a =? nullptr) = false) as -> by (by apply Z.eqb_neq).
    destruct k as [kN|].
    + unfold ScopedArrayRO.scoped, mbind, M_bind.
      rewrite RO_ctor_nonnull by done. simpl.
      destruct (_ <=? _); unfold mret, M_ret; rewrite RO_dtor_eq; simpl.
      * rewrite decide_False by tauto.
        eapply Hclose; [simpl; rewrite <- ?app_assoc; reflexivity | done..].
      * rewrite decide_True by (split; congruence).
        eapply Hclose; [simpl; rewrite <- ?app_assoc; reflexivity | done..].
    + unfold ScopedArrayRW.scoped, mbind, M_bind.
      rewrite RW_ctor_nonnull by done. unfold mret, M_ret.
      rewrite RW_dtor_eq. simpl. rewrite decide_True by done.
      eapply Hclose; [simpl; rewrite <- ?app_assoc; reflexivity | done..].
Qed.

Lemma lifetime_counts abi T k st a env :
  (a = nullptr → k = RO true ∨ (k = RO false ∧ fatal_returns env = true)) →
  (a ≠ nullptr →
   array_elements env a ≠ nullptr ∧ buffer_at st ≠ array_elements env a) →
  ∃ env',
    counting (lifetime abi T k st a) env
    = Returned env' (pins abi T k a env, pins abi T k a env)
    ∧ same_runtime env env'.
Proof.
  intros Hnull Hpin.
  destruct (lifetime_calls abi T k st a env Hnull Hpin)
    as (env' & cs & Hl & Hcs & Hsame & Hacq & Hrel).
  exists env'. split; [|done].
  unfold counting. rewrite Hl, Hcs, !count_app, Hacq, Hrel.
  do 2 f_equal; lia.
Qed.





(** ** Element access and observers *)




(** Outside the precondition the access can leave storage: element 8192 of
    the 32-element view of the previous lemma is not backed by anything. *)
Example index_past_the_view :
  load (memory mock_env)
       (ScopedArrayRW.operator_index jbyte
          {| ScopedArrayRW.mJavaArray := 2; ScopedArrayRW.mRawArray := dummyPtr;
             ScopedArrayRW.mSize := 32 |} 8192) = None.
Proof. vm_compute. reflexivity. Qed.


(** * Further properties of the accessors *)

(** ** Lengths and conversions *)

Lemma ssize_round_trip abi z :
  - 2 ^ 31 ≤ z < 2 ^ 31 → to_ssize_t abi (to_size_t abi z) = z.
Proof.
  intros Hz. unfold to_ssize_t, to_size_t, wrap_signed, wrap_unsigned.
  rewrite Zplus_mod_idemp_l.
  destruct (size_bits_cases abi) as [-> | ->]; rewrite Z.mod_small; lia.
Qed.

Lemma to_size_t_range abi z : 0 ≤ to_size_t abi z ≤ SIZE_MAX abi.
Proof.
  unfold to_size_t, wrap_unsigned, SIZE_MAX.
  pose proof (Z.mod_pos_bound z (2 ^ size_bits abi)) as H.
  destruct (size_bits_cases abi) as [E | E]; rewrite E in *; lia.
Qed.

Lemma to_size_t_negative abi z :
  - 2 ^ 31 ≤ z < 0 → to_size_t abi z = 2 ^ size_bits abi + z.
Proof.
  intros Hz. unfold to_size_t, wrap_unsigned.
  rewrite <- (Z.mod_small (2 ^ size_bits abi + z) (2 ^ size_bits abi))
    by (destruct (size_bits_cases abi) as [-> | ->]; lia).
  rewrite <- (Z.mod_add z 1) at 1
    by (destruct (size_bits_cases abi) as [-> | ->]; lia).
  f_equal. lia.
Qed.

Lemma foreign_length_range env a : - 2 ^ 31 ≤ foreign_length env a < 2 ^ 31.
Proof. apply to_jsize_range. Qed.

(** The size the read-only constructor stores for a reported length, and the
    length it passes to the region copy when that size is within the
    embedded array. *)
Lemma stored_size_cases abi k z :
  - 2 ^ 31 ≤ z < 2 ^ 31 →
  let sz := ScopedArrayRO.to_SizeT abi k (to_size_t abi z) in
  (0 ≤ z → sz = z)
  ∧ (sz ≤ 1024 → to_jsize (to_size_t abi sz) ≤ Z.max sz 0
                  ∧ to_jsize (to_size_t abi sz) ≤ 1024).
Proof.
  intros Hz. simpl. split.
  - intros Hpos. rewrite (to_size_t_id abi z) by lia.
    apply to_SizeT_id. lia.
  - destruct k; simpl; intros Hsz.
    + rewrite ssize_round_trip in * by done.
      rewrite jsize_round_trip by done. lia.
    + pose proof (to_size_t_range abi z) as Hr.
      set (s := to_size_t abi z) in *.
      unfold ScopedArrayRO.to_SizeT in *.
      assert (Hs : to_size_t abi s = s).
      { unfold s, to_size_t, wrap_unsigned. apply Zmod_mod. }
      rewrite Hs in *. rewrite Hs, to_jsize_id by lia. lia.
Qed.

(** X1. The trait-level length query makes exactly one [GetArrayLength] call
    and returns the runtime's [jsize] converted to [size_t]: the same number
    when the runtime's length is non-negative, and [2 ^ w] more than it (a
    count above [2 ^ w - 2 ^ 31]) if the runtime ever answered a negative
    one. *)
Theorem trait_length_is_runtime_length abi T a env :
  getArrayLength (abi := abi) (T := T) a env
  = Returned (record_call (GetArrayLength a) env)
             (to_size_t abi (foreign_length env a))
  ∧ 0 ≤ to_size_t abi (foreign_length env a) ≤ SIZE_MAX abi
  ∧ (0 ≤ foreign_length env a →
     to_size_t abi (foreign_length env a) = foreign_length env a)
  ∧ (foreign_length env a < 0 →
     to_size_t abi (foreign_length env a)
     = 2 ^ size_bits abi + foreign_length env a).
Proof.
  pose proof (foreign_length_range env a).
  split; [done|]. split; [apply to_size_t_range|]. split; intros Hl.
  - apply to_size_t_id. lia.
  - apply to_size_t_negative. lia.
Qed.

(** ** The read-only view *)

(** X2. Over a non-null handle whose length is non-negative, the read-only
    constructor of either variant returns, keeps the handle, and reports the
    runtime's length as [size()]; the view pointer is the embedded array at
    lengths up to [BUFFER_SIZE] and the acquired pointer above; [begin()] is
    the view pointer, and, unless the view pointer is null in the nullable
    variant, [end()] is exactly [size()] elements after [begin()]. *)
Theorem ro_view_of_nonnull_handle abi T k this a env :
  a ≠ nullptr →
  0 ≤ foreign_length env a →
  ∃ env1 array,
    ScopedArrayRO.ctor abi T k this a env = Returned env1 array
    ∧ ScopedArrayRO.getJavaArray array = a
    ∧ ScopedArrayRO.size array = foreign_length env a
    ∧ ScopedArrayRO.get array
      = (if decide (foreign_length env a ≤ ScopedArrayRO.BUFFER_SIZE T)
         then ScopedArrayRO.mBuffer this else array_elements env a)
    ∧ ScopedArrayRO.begin array = ScopedArrayRO.get array
    ∧ (k = false ∨ ScopedArrayRO.get array ≠ nullptr →
       ScopedArrayRO.end_ T k array
       = ptr_add T (ScopedArrayRO.begin array) (ScopedArrayRO.size array))
    ∧ same_runtime env env1.
Proof.
  intros Ha Hlen.
  assert (Hend : ∀ array, k = false ∨ ScopedArrayRO.get array ≠ nullptr →
    ScopedArrayRO.end_ T k array
    = ptr_add T (ScopedArrayRO.begin array) (ScopedArrayRO.size array)).
  { intros array [-> | Hv]; unfold ScopedArrayRO.end_; [done|].
    unfold ScopedArrayRO.get in Hv. apply Z.eqb_neq in Hv as ->.
    by rewrite andb_false_r. }
  case_decide as Hsmall.
  - eexists _, _. split; [by apply RO_ctor_small|].
    repeat split; try done. apply Hend.
  - eexists _, _. split; [apply RO_ctor_large; [done | lia]|].
    repeat split; try done. apply Hend.
Qed.

Lemma ro_view_of_nonnull_handle_witness :
  (LARGE_ARRAY ≠ nullptr ∧ 0 ≤ foreign_length mock_env LARGE_ARRAY)
  ∧ ∃ env1 array,
      ScopedArrayRO.ctor LP64 jbyte true (place_RO used_storage) LARGE_ARRAY
        mock_env = Returned env1 array
      ∧ ScopedArrayRO.size array = LARGE_ARRAY_SIZE
      ∧ ScopedArrayRO.get array = dummyPtr
      ∧ ScopedArrayRO.end_ jbyte true array = dummyPtr + LARGE_ARRAY_SIZE.
Proof.
  assert (H1 : LARGE_ARRAY ≠ nullptr) by discriminate.
  assert (H2 : 0 ≤ foreign_length mock_env LARGE_ARRAY) by discriminate.
  split; [by split|].
  destruct (ro_view_of_nonnull_handle LP64 jbyte true (place_RO used_storage)
              LARGE_ARRAY mock_env H1 H2)
    as (env1 & array & Hc & _ & Hs & Hg & Hb & He & _).
  exists env1, array. split; [exact Hc|]. split; [exact Hs|].
  split; [exact Hg|]. rewrite He, Hb, Hg, Hs.
  - clear. by vm_compute.
  - right. rewrite Hg. clear. by vm_compute.
Defined.

(** X3. On a non-null handle with a non-negative length the nullable and the
    non-nullable read-only constructors do the same thing, and on any object
    whose view pointer is non-null their [end()] agree: the variants differ
    only where there is no array. *)
Theorem nullable_differs_only_on_null abi T this a env :
  a ≠ nullptr →
  0 ≤ foreign_length env a →
  ScopedArrayRO.ctor abi T true this a env
  = ScopedArrayRO.ctor abi T false this a env
  ∧ ∀ array, ScopedArrayRO.get array ≠ nullptr →
      ScopedArrayRO.end_ T true array = ScopedArrayRO.end_ T false array.
Proof.
  intros Ha Hlen. split.
  - destruct (decide (foreign_length env a ≤ ScopedArrayRO.BUFFER_SIZE T)).
    + by rewrite !RO_ctor_small.
    + by rewrite !RO_ctor_large by (done || lia).
  - intros array Hv. unfold ScopedArrayRO.end_, ScopedArrayRO.get in *.
    by apply Z.eqb_neq in Hv as ->.
Qed.

Lemma nullable_differs_only_on_null_witness :
  (SMALL_ARRAY ≠ nullptr ∧ 0 ≤ foreign_length mock_env SMALL_ARRAY)
  ∧ ScopedArrayRO.ctor LP64 jbyte true (place_RO used_storage) SMALL_ARRAY
      mock_env
    = ScopedArrayRO.ctor LP64 jbyte false (place_RO used_storage) SMALL_ARRAY
        mock_env.
Proof.
  assert (H1 : SMALL_ARRAY ≠ nullptr) by discriminate.
  assert (H2 : 0 ≤ foreign_length mock_env SMALL_ARRAY) by discriminate.
  split; [by split|].
  exact (proj1 (nullable_differs_only_on_null LP64 jbyte
                  (place_RO used_storage) SMALL_ARRAY mock_env H1 H2)).
Defined.

Lemma BUFFER_SIZE_bytes T : ScopedArrayRO.BUFFER_SIZE T * sizeof T = 1024.
Proof. by destruct T. Qed.

(** X4. Whatever the handle and whatever length the runtime reports, the
    read-only constructor writes native memory only inside the 1024 bytes of
    its embedded array: every address outside them holds what it held before,
    and no storage appears or disappears. *)
Theorem ro_ctor_writes_only_embedded_array abi T k this a env x :
  let env1 := final_env (ScopedArrayRO.ctor abi T k this a env) in
  (x < ScopedArrayRO.mBuffer this ∨ ScopedArrayRO.mBuffer this + 1024 ≤ x →
   memory env1 !! x = memory env !! x)
  ∧ (is_Some (memory env1 !! x) ↔ is_Some (memory env !! x)).
Proof.
  simpl. destruct (decide (a = nullptr)) as [-> | Ha].
  { rewrite RO_ctor_null. simpl. by destruct k, (fatal_returns env). }
  rewrite RO_ctor_nonnull by done. simpl.
  destruct (Z.leb_spec
    (ScopedArrayRO.to_SizeT abi k (to_size_t abi (foreign_length env a)))
    (ScopedArrayRO.BUFFER_SIZE T)) as [Hle | Hgt]; simpl; [|done].
  split; [|apply copy_region_keeps_storage].
  intros Hout. apply copy_region_outside. intros i Hi.
  pose proof (BUFFER_SIZE_range T). pose proof (BUFFER_SIZE_bytes T).
  pose proof (sizeof_pos T).
  destruct (stored_size_cases abi k (foreign_length env a)
              (foreign_length_range env a)) as [_ Hcopy].
  destruct Hcopy as [Hcopy _]; [lia|].
  unfold ptr_add. nia.
Qed.

Lemma ro_ctor_writes_only_embedded_array_witness :
  (dummyPtr < 4096 ∨ 4096 + 1024 ≤ dummyPtr)
  ∧ memory (final_env (ScopedArrayRO.ctor LP64 jbyte false
                         (place_RO used_storage) SMALL_ARRAY mock_env))
      !! dummyPtr
    = memory mock_env !! dummyPtr.
Proof.
  assert (H1 : dummyPtr < 4096 ∨ 4096 + 1024 ≤ dummyPtr)
    by (right; clear; by vm_compute).
  split; [exact H1|].
  exact (proj1 (ro_ctor_writes_only_embedded_array LP64 jbyte false
                  (place_RO used_storage) SMALL_ARRAY mock_env dummyPtr) H1).
Defined.

(** X5. A read-only accessor never releases what it did not acquire and
    never writes back: over any handle and any runtime, the calls of one
    lifetime contain at most one acquire, never an acquire together with a
    region copy, no more releases than acquires, and only releases with mode
    [JNI_ABORT]. *)
Theorem ro_lifetime_release_discipline abi T k st a env :
  ∃ cs,
    calls (final_env (lifetime abi T (RO k) st a env)) = calls env ++ cs
    ∧ (count is_release cs ≤ count is_acquire cs)%nat
    ∧ (count is_acquire cs + count is_region cs ≤ 1)%nat
    ∧ Forall (λ mode, mode = JNI_ABORT) (release_modes cs).
Proof.
  unfold lifetime, ScopedArrayRO.scoped, mbind, M_bind.
  destruct (decide (a = nullptr)) as [-> | Ha].
  - rewrite RO_ctor_null. simpl.
    destruct k; [|destruct (fatal_returns env)]; simpl.
    + exists []. rewrite app_nil_r. repeat split; (done || by constructor).
    + exists [FatalError null_message].
      repeat split; (done || by constructor).
    + exists [FatalError null_message].
      repeat split; (done || by constructor).
  - rewrite RO_ctor_nonnull by done. simpl.
    destruct (_ <=? _); unfold mret, M_ret; rewrite RO_dtor_eq; simpl;
      case_decide as Hp; simpl.
    + tauto.
    + eexists [_; _]. rewrite <- app_assoc.
      repeat split; (done || (unfold count; simpl; lia) || by constructor).
    + eexists [_; _; _]. rewrite <- !app_assoc.
      repeat split;
        (done || (unfold count; simpl; lia) || by repeat constructor).
    + eexists [_; _]. rewrite <- app_assoc.
      repeat split; (done || (unfold count; simpl; lia) || by constructor).
Qed.

(** ** Null handles when the callback does not return *)

(** X6. With a fatal-error callback that does not return, constructing a
    non-nullable read-only accessor or a read-write accessor on a null handle
    ends the scope there: the only call made is [FatalError] with the message
    "javaArray is null", and neither the body nor the destructor runs. *)
Theorem null_handle_aborts abi T env {A}
    (ro : ScopedArrayRO.t) (rw : ScopedArrayRW.t)
    (ro_body : ScopedArrayRO.t → M JNIEnv A)
    (rw_body : ScopedArrayRW.t → M JNIEnv A) :
  fatal_returns env = false →
  ScopedArrayRO.scoped abi T false ro nullptr ro_body env
  = Aborted (record_call (FatalError "javaArray is null") env)
  ∧ ScopedArrayRW.scoped abi T rw nullptr rw_body env
    = Aborted (record_call (FatalError "javaArray is null") env).
Proof.
  intros Habort. split.
  - unfold ScopedArrayRO.scoped, mbind, M_bind.
    by rewrite RO_ctor_null, Habort.
  - unfold ScopedArrayRW.scoped, mbind, M_bind.
    by rewrite RW_ctor_null, Habort.
Qed.

Lemma null_handle_aborts_witness :
  fatal_returns aborting_env = false
  ∧ lifetime LP64 jbyte RW used_storage nullptr aborting_env
    = Aborted (record_call (FatalError "javaArray is null") aborting_env).
Proof.
  split; [reflexivity|].
  exact (proj2 (null_handle_aborts LP64 jbyte aborting_env
                  (place_RO used_storage) (place_RW used_storage)
                  (λ _, mret ()) (λ _, mret ()) eq_refl)).
Defined.

(** ** The read-write view *)

(** X7. Over a non-null handle whose length is non-negative, the read-write
    constructor returns, keeps the handle, holds the acquired pointer as
    [get()], [begin()] and [cbegin()], reports the runtime's length as
    [size()] (the [jsize] member and the [size_t] result lose nothing), and
    puts [end()] and [cend()] exactly [size()] elements after [begin()]. *)
Theorem rw_view_of_nonnull_handle abi T this a env :
  a ≠ nullptr →
  0 ≤ foreign_length env a →
  ∃ env1 array,
    ScopedArrayRW.ctor abi T this a env = Returned env1 array
    ∧ ScopedArrayRW.getJavaArray array = a
    ∧ ScopedArrayRW.get array = array_elements env a
    ∧ ScopedArrayRW.begin array = ScopedArrayRW.get array
    ∧ ScopedArrayRW.cbegin array = ScopedArrayRW.get array
    ∧ ScopedArrayRW.size abi array = foreign_length env a
    ∧ ScopedArrayRW.end_ T array
      = ptr_add T (ScopedArrayRW.begin array) (ScopedArrayRW.size abi array)
    ∧ ScopedArrayRW.cend T array = ScopedArrayRW.end_ T array
    ∧ same_runtime env env1.
Proof.
  intros Ha Hlen. pose proof (foreign_length_range env a).
  eexists _, _. split; [by apply RW_ctor_nonnull|].
  unfold ScopedArrayRW.size, ScopedArrayRW.end_, ScopedArrayRW.cend. simpl.
  rewrite jsize_round_trip, to_size_t_id by lia. done.
Qed.

Lemma rw_view_of_nonnull_handle_witness :
  (LARGE_ARRAY ≠ nullptr ∧ 0 ≤ foreign_length mock_env LARGE_ARRAY)
  ∧ ∃ env1 array,
      ScopedArrayRW.ctor ILP32 jint (place_RW used_storage) LARGE_ARRAY
        mock_env = Returned env1 array
      ∧ ScopedArrayRW.size ILP32 array = LARGE_ARRAY_SIZE
      ∧ ScopedArrayRW.end_ jint array = dummyPtr + 4 * LARGE_ARRAY_SIZE.
Proof.
  assert (H1 : LARGE_ARRAY ≠ nullptr) by discriminate.
  assert (H2 : 0 ≤ foreign_length mock_env LARGE_ARRAY) by discriminate.
  split; [by split|].
  destruct (rw_view_of_nonnull_handle ILP32 jint (place_RW used_storage)
              LARGE_ARRAY mock_env H1 H2)
    as (env1 & array & Hc & _ & Hg & Hb & _ & Hs & He & _).
  exists env1, array. split; [exact Hc|]. split; [exact Hs|].
  rewrite He, Hb, Hg, Hs. clear. by vm_compute.
Defined.

(** X8. Distinct indices never alias: after a write through [operator[]] at
    index [n] that found storage, reading index [m] through the same view
    gives the written value if [m = n] and what was there before otherwise;
    a write that finds no storage changes nothing.  Neither makes a foreign
    call. *)
Theorem index_write_then_read T (array : ScopedArrayRW.t) n m v env :
  match assign (ScopedArrayRW.operator_index T array n) v env with
  | Returned env' stored =>
      calls env' = calls env
      ∧ load (memory env') (ScopedArrayRW.operator_index T array m)
        = (if stored && bool_decide (m = n) then Some v
           else load (memory env) (ScopedArrayRW.operator_index T array m))
      ∧ (stored = true
         ↔ is_Some (load (memory env) (ScopedArrayRW.operator_index T array n)))
  | Aborted _ => False
  end.
Proof.
  unfold assign, store, load, ScopedArrayRW.operator_index.
  destruct (memory env !! ptr_add T (ScopedArrayRW.mRawArray array) n)
    as [w|] eqn:Hw; simpl.
  - split; [done|]. split; [|by split; eauto].
    case_bool_decide as Hmn.
    + subst. apply lookup_insert_eq.
    + apply lookup_insert_ne. intros E. by apply ptr_add_inj in E.
  - split; [done|]. split; [done|]. split; [done|]. by intros [? ?].
Qed.

(** ** Nested scopes *)

(** X10. Two read-write accessors in nested scopes, over non-null handles
    whose acquires succeed: each pin is released exactly once and the
    releases come in the reverse order of the acquires, the inner accessor's
    first. *)
Theorem nested_scopes_release_in_reverse abi T this1 this2 a1 a2 env :
  a1 ≠ nullptr → a2 ≠ nullptr →
  array_elements env a1 ≠ nullptr → array_elements env a2 ≠ nullptr →
  ∃ env' seen1 seen2,
    ScopedArrayRW.scoped abi T this1 a1
      (λ _, ScopedArrayRW.scoped abi T this2 a2 (λ _, mret ())) env
    = Returned env' ()
    ∧ calls env'
      = calls env
        ++ [GetArrayLength a1; GetArrayElements T a1;
            GetArrayLength a2; GetArrayElements T a2;
            ReleaseArrayElements T a2 (array_elements env a2) 0 seen2;
            ReleaseArrayElements T a1 (array_elements env a1) 0 seen1].
Proof.
  intros Ha1 Ha2 Hp1 Hp2.
  unfold ScopedArrayRW.scoped, mbind, M_bind.
  rewrite RW_ctor_nonnull by done.
  rewrite RW_ctor_nonnull by done. unfold mret, M_ret.
  rewrite RW_dtor_eq. simpl. rewrite decide_True by done.
  rewrite RW_dtor_eq. simpl. rewrite decide_True by done.
  eexists _, _, _. split; [reflexivity|]. simpl.
  by rewrite <- !app_assoc.
Qed.

Lemma nested_scopes_release_in_reverse_witness :
  (LARGE_ARRAY ≠ nullptr ∧ SMALL_ARRAY ≠ nullptr
   ∧ array_elements mock_env LARGE_ARRAY ≠ nullptr
   ∧ array_elements mock_env SMALL_ARRAY ≠ nullptr)
  ∧ ∃ env' seen1 seen2,
      ScopedArrayRW.scoped LP64 jbyte (place_RW used_storage) LARGE_ARRAY
        (λ _, ScopedArrayRW.scoped LP64 jbyte (place_RW used_storage)
                SMALL_ARRAY (λ _, mret ())) mock_env
      = Returned env' ()
      ∧ calls env'
        = calls mock_env
          ++ [GetArrayLength LARGE_ARRAY; GetArrayElements jbyte LARGE_ARRAY;
              GetArrayLength SMALL_ARRAY; GetArrayElements jbyte SMALL_ARRAY;
              ReleaseArrayElements jbyte SMALL_ARRAY
                (array_elements mock_env SMALL_ARRAY) 0 seen2;
              ReleaseArrayElements jbyte LARGE_ARRAY
                (array_elements mock_env LARGE_ARRAY) 0 seen1].
Proof.
  assert (H1 : LARGE_ARRAY ≠ nullptr) by discriminate.
  assert (H2 : SMALL_ARRAY ≠ nullptr) by discriminate.
  assert (H3 : array_elements mock_env LARGE_ARRAY ≠ nullptr) by discriminate.
  assert (H4 : array_elements mock_env SMALL_ARRAY ≠ nullptr) by discriminate.
  split; [by repeat split|].
  exact (nested_scopes_release_in_reverse LP64 jbyte (place_RW used_storage)
           (place_RW used_storage) LARGE_ARRAY SMALL_ARRAY mock_env
           H1 H2 H3 H4).
Defined.

(** ** After a failed acquire *)

(** X15. When the acquire on a long array fails, the read-only accessor
    still reports the array's length as [size()] over a null view.  The
    nullable variant then has an empty range, [begin() = end() = nullptr];
    the non-nullable variant has [begin() = nullptr] but an [end()] that lies
    [size()] elements further, so its range is not empty. *)
Theorem failed_acquire_leaves_a_range abi T k this a env :
  a ≠ nullptr →
  ScopedArrayRO.BUFFER_SIZE T < foreign_length env a →
  array_elements env a = nullptr →
  ∃ env1 array,
    ScopedArrayRO.ctor abi T k this a env = Returned env1 array
    ∧ ScopedArrayRO.get array = nullptr
    ∧ ScopedArrayRO.begin array = nullptr
    ∧ ScopedArrayRO.size array = foreign_length env a
    ∧ (k = true → ScopedArrayRO.end_ T k array = nullptr)
    ∧ (k = false →
       ScopedArrayRO.end_ T k array = foreign_length env a * sizeof T
       ∧ ScopedArrayRO.end_ T k array ≠ ScopedArrayRO.begin array).
Proof.
  intros Ha Hlen Hfail. pose proof (BUFFER_SIZE_range T).
  pose proof (sizeof_pos T).
  eexists _, _. split; [by apply RO_ctor_large|].
  unfold ScopedArrayRO.begin, ScopedArrayRO.end_, ScopedArrayRO.get,
    ScopedArrayRO.size, ptr_add. simpl. rewrite Hfail.
  do 3 (split; [done|]). split; intros ->; simpl; [done|].
  unfold nullptr. split; [lia | nia].
Qed.

Lemma failed_acquire_leaves_a_range_witness :
  (LARGE_ARRAY ≠ nullptr
   ∧ ScopedArrayRO.BUFFER_SIZE jbyte < foreign_length failing_env LARGE_ARRAY
   ∧ array_elements failing_env LARGE_ARRAY = nullptr)
  ∧ ∃ env1 array,
      ScopedArrayRO.ctor LP64 jbyte false (place_RO used_storage) LARGE_ARRAY
        failing_env = Returned env1 array
      ∧ ScopedArrayRO.begin array = nullptr
      ∧ ScopedArrayRO.end_ jbyte false array = LARGE_ARRAY_SIZE.
Proof.
  assert (H1 : LARGE_ARRAY ≠ nullptr) by discriminate.
  assert (H2 : ScopedArrayRO.BUFFER_SIZE jbyte
               < foreign_length failing_env LARGE_ARRAY) by reflexivity.
  assert (H3 : array_elements failing_env LARGE_ARRAY = nullptr)
    by reflexivity.
  split; [by repeat split|].
  destruct (failed_acquire_leaves_a_range LP64 jbyte false
              (place_RO used_storage) LARGE_ARRAY failing_env H1 H2 H3)
    as (env1 & array & Hc & _ & Hb & _ & _ & He).
  exists env1, array. split; [exact Hc|]. split; [exact Hb|].
  destruct (He eq_refl) as [-> _]. clear. by vm_compute.
Defined.

(** ** Any trait table *)

Section AnyTraits.
Context {abi : ABI} {T : JType} {Env : Type}
        `{!ScopedPrimitiveArrayTraits abi T Env}.

(** X11. Whatever the trait table, a nullable read-only accessor on a null
    handle consults none of its functions: a scope holding one behaves as
    its body alone, run on an object with a null handle, a null view pointer
    and size [-1]. *)
Theorem nullable_null_scope_is_its_body {A} (this : ScopedArrayRO.t)
    (body : ScopedArrayRO.t → M Env A) (env : Env) :
  ScopedArrayRO.scoped abi T true this nullptr body env
  = body {| ScopedArrayRO.mJavaArray := nullptr;
            ScopedArrayRO.mRawArray := nullptr;
            ScopedArrayRO.mSize := -1;
            ScopedArrayRO.mBuffer := ScopedArrayRO.mBuffer this |} env.
Proof.
  unfold ScopedArrayRO.scoped, ScopedArrayRO.ctor, ScopedArrayRO.dtor.
  simpl. unfold ScopedArrayRO.to_SizeT. rewrite to_ssize_t_minus_one.
  unfold mbind, mret, M_bind, M_ret. by destruct (body _ env).
Qed.

End AnyTraits.

(** ** The expectations of the repository's test *)

Section MockProperties.
Import ScopedPrimitiveArrayTest.
#[local] Existing Instance TestTraits.

Lemma small_fits T : (SMALL_ARRAY_SIZE <=? ScopedArrayRO.BUFFER_SIZE T) = true.
Proof. by destruct T. Qed.

Lemma large_exceeds T :
  (LARGE_ARRAY_SIZE <=? ScopedArrayRO.BUFFER_SIZE T) = false.
Proof. by destruct T. Qed.

(** X12. The read-only blocks of the test, for every non-null handle, either
    variant and every element kind, on a context whose counters were reset:
    inside the scope the handle is the one given, [size()] is the mock's
    length, the view is the embedded array for a small array and [dummyPtr]
    for [LARGE_ARRAY], and [end()] is [size()] elements after [begin()];
    after the scope the acquire and release counts are equal,
    [memoryUpdated()] is false and no null-pointer callback was made. *)
Theorem test_read_only_expectations abi T k (this : ScopedArrayRO.t) a
    (ctx : TestContext) :
  a ≠ nullptr →
  ScopedArrayRO.mBuffer this ≠ nullptr →
  dummyPtr ctx ≠ nullptr →
  dummyPtr ctx ≠ ScopedArrayRO.mBuffer this →
  let len := if a =? LARGE_ARRAY then LARGE_ARRAY_SIZE else SMALL_ARRAY_SIZE in
  let view :=
    if a =? LARGE_ARRAY then dummyPtr ctx else ScopedArrayRO.mBuffer this in
  ∃ ctx',
    ScopedArrayRO.scoped abi T k this a
      (λ array, mret (ScopedArrayRO.get array, ScopedArrayRO.getJavaArray array,
                      ScopedArrayRO.begin array, ScopedArrayRO.end_ T k array,
                      ScopedArrayRO.size array))
      (resetCallCount ctx)
    = Returned ctx' (view, a, view, ptr_add T view len, len)
    ∧ getArrayElementsCallCount ctx' = releaseArrayElementsCallCount ctx'
    ∧ getArrayElementsCallCount ctx' = (if a =? LARGE_ARRAY then 1 else 0)
    ∧ memoryUpdated ctx' = false
    ∧ NPEThrown ctx' = false.
Proof.
  intros Ha Hbuf Hdummy Hdistinct. simpl.
  apply Z.eqb_neq in Ha, Hbuf, Hdummy. pose proof Hdistinct as Hd2.
  apply Z.eqb_neq in Hdistinct.
  unfold ScopedArrayRO.scoped, ScopedArrayRO.ctor, ScopedArrayRO.dtor,
    ScopedArrayRO.end_, ScopedArrayRO.get.
  simpl. rewrite Ha.
  unfold mbind, mret, M_bind, M_ret. simpl.
  destruct (a =? LARGE_ARRAY); simpl.
  - rewrite (to_SizeT_id abi k LARGE_ARRAY_SIZE) by done.
    rewrite large_exceeds. simpl. rewrite Hdummy, Hdistinct. simpl.
    rewrite Z.eqb_refl, andb_false_r. eexists. split; [reflexivity|]. done.
  - rewrite (to_SizeT_id abi k SMALL_ARRAY_SIZE) by done.
    rewrite small_fits. simpl. rewrite Hbuf, Z.eqb_refl. simpl.
    rewrite andb_false_r. eexists. split; [reflexivity|]. done.
Qed.

Lemma test_read_only_expectations_witness :
  (LARGE_ARRAY ≠ nullptr
   ∧ ScopedArrayRO.mBuffer (place_RO used_storage) ≠ nullptr
   ∧ dummyPtr used_context ≠ nullptr
   ∧ dummyPtr used_context ≠ ScopedArrayRO.mBuffer (place_RO used_storage))
  ∧ ∃ ctx',
      ScopedArrayRO.scoped LP64 jbyte false (place_RO used_storage) LARGE_ARRAY
        (λ array, mret (ScopedArrayRO.get array,
                        ScopedArrayRO.getJavaArray array,
                        ScopedArrayRO.begin array,
                        ScopedArrayRO.end_ jbyte false array,
                        ScopedArrayRO.size array))
        (resetCallCount used_context)
      = Returned ctx' (65536, LARGE_ARRAY, 65536, 65536 + 8192, 8192)
      ∧ getArrayElementsCallCount ctx' = releaseArrayElementsCallCount ctx'
      ∧ memoryUpdated ctx' = false.
Proof.
  assert (H1 : LARGE_ARRAY ≠ nullptr) by discriminate.
  assert (H2 : ScopedArrayRO.mBuffer (place_RO used_storage) ≠ nullptr)
    by discriminate.
  assert (H3 : dummyPtr used_context ≠ nullptr) by discriminate.
  assert (H4 : dummyPtr used_context
               ≠ ScopedArrayRO.mBuffer (place_RO used_storage))
    by discriminate.
  split; [by repeat split|].
  destruct (test_read_only_expectations LP64 jbyte false
              (place_RO used_storage) LARGE_ARRAY used_context H1 H2 H3 H4)
    as (ctx' & Hs & Hcount & _ & Hmem & _).
  exists ctx'. split; [exact Hs|]. by split.
Defined.

(** X13. The read-write blocks of the test, for every non-null handle and
    every element kind, on a context whose counters were reset: inside the
    scope the view is [dummyPtr], the handle is the one given, [size()] is
    the mock's length and [end()] is [size()] elements after [begin()]; after
    the scope there was one acquire and one release, [memoryUpdated()] is
    true and no null-pointer callback was made. *)
Theorem test_read_write_expectations abi T (this : ScopedArrayRW.t) a
    (ctx : TestContext) :
  a ≠ nullptr →
  dummyPtr ctx ≠ nullptr →
  let len := if a =? LARGE_ARRAY then LARGE_ARRAY_SIZE else SMALL_ARRAY_SIZE in
  ∃ ctx',
    ScopedArrayRW.scoped abi T this a
      (λ array, mret (ScopedArrayRW.get array, ScopedArrayRW.getJavaArray array,
                      ScopedArrayRW.begin array, ScopedArrayRW.end_ T array,
                      ScopedArrayRW.size abi array))
      (resetCallCount ctx)
    = Returned ctx' (dummyPtr ctx, a, dummyPtr ctx,
                     ptr_add T (dummyPtr ctx) len, len)
    ∧ getArrayElementsCallCount ctx' = 1
    ∧ releaseArrayElementsCallCount ctx' = 1
    ∧ memoryUpdated ctx' = true
    ∧ NPEThrown ctx' = false.
Proof.
  intros Ha Hdummy. simpl. apply Z.eqb_neq in Ha, Hdummy.
  unfold ScopedArrayRW.scoped, ScopedArrayRW.ctor, ScopedArrayRW.dtor,
    ScopedArrayRW.end_, ScopedArrayRW.size, ScopedArrayRW.get.
  simpl. rewrite Ha.
  unfold mbind, mret, M_bind, M_ret. simpl. rewrite Hdummy. simpl.
  rewrite Z.eqb_refl.
  destruct (a =? LARGE_ARRAY);
    rewrite to_jsize_id, to_size_t_id by done;
    (eexists; split; [reflexivity|done]).
Qed.

Lemma test_read_write_expectations_witness :
  (SMALL_ARRAY ≠ nullptr ∧ dummyPtr used_context ≠ nullptr)
  ∧ ∃ ctx',
      ScopedArrayRW.scoped LP64 jbyte (place_RW used_storage) SMALL_ARRAY
        (λ array, mret (ScopedArrayRW.get array,
                        ScopedArrayRW.getJavaArray array,
                        ScopedArrayRW.begin array,
                        ScopedArrayRW.end_ jbyte array,
                        ScopedArrayRW.size LP64 array))
        (resetCallCount used_context)
      = Returned ctx' (65536, SMALL_ARRAY, 65536, 65536 + 32, 32)
      ∧ getArrayElementsCallCount ctx' = releaseArrayElementsCallCount ctx'
      ∧ memoryUpdated ctx' = true.
Proof.
  assert (H1 : SMALL_ARRAY ≠ nullptr) by discriminate.
  assert (H2 : dummyPtr used_context ≠ nullptr) by discriminate.
  split; [by split|].
  destruct (test_read_write_expectations LP64 jbyte (place_RW used_storage)
              SMALL_ARRAY used_context H1 H2)
    as (ctx' & Hs & Hacq & Hrel & Hmem & _).
  exists ctx'. split; [exact Hs|]. split; [congruence | exact Hmem].
Defined.

(** X14. The null block of the nullable test, on any context whose counters
    were reset: [get()], [getJavaArray()], [begin()] and [end()] are null,
    [size()] is [-1], and the scope leaves the context untouched, so the
    counts are equal (both zero), [memoryUpdated()] is false and no
    null-pointer callback was made. *)
Theorem test_nullable_null_expectations abi T (this : ScopedArrayRO.t)
    (ctx : TestContext) :
  ScopedArrayRO.scoped abi T true this nullptr
    (λ array, mret (ScopedArrayRO.get array, ScopedArrayRO.getJavaArray array,
                    ScopedArrayRO.begin array, ScopedArrayRO.end_ T true array,
                    ScopedArrayRO.size array))
    (resetCallCount ctx)
  = Returned (resetCallCount ctx) (nullptr, nullptr, nullptr, nullptr, -1)
  ∧ getArrayElementsCallCount (resetCallCount ctx)
    = releaseArrayElementsCallCount (resetCallCount ctx)
  ∧ memoryUpdated (resetCallCount ctx) = false
  ∧ NPEThrown (resetCallCount ctx) = false.
Proof. by rewrite nullable_null_scope_is_its_body. Qed.

End MockProperties.
